(** * A shallow embedding of [scraper.py]

    The Hacker News scraper is a linear pipeline: fetch the front page,
    pair story links with scores, replace the contents of a MongoDB
    collection, read it back sorted by score, write the four best
    stories to [email.txt] and mail that file.

    Conventions of the embedding.
    - A Python [str] is a [string]; each character stands for one code
      point below 256 (the Latin-1 range), which is where [str.isdigit]
      and [int] already disagree.
    - A raised exception is the [Raise] branch of [result]; code that
      also changes the database or the file system takes the state and
      returns the new one next to its result, so that what was changed
      before an exception stays changed.
    - BeautifulSoup, requests, pymongo and smtplib are outside the
      repository.  The page is represented by what the two [find_all]
      queries of the scraper return, each score element being followed
      by a text node; the HTML parser, the HTTP exchange and the SMTP
      session are parameters of the model; the collection is an
      insertion-ordered list of documents on a reachable server, whose
      driver encodes integers in at most 8 bytes.
    - The interpreter is CPython on a POSIX system with its default
      settings and a UTF-8 locale: [int] reads at most 4300 digits, a
      text file is written as it is and read back with universal
      newlines. *)

From Stdlib Require Import ZArith Ascii String DecimalString Lia.
From Stdlib Require DecimalPos DecimalZ.
From stdpp Require Import base option list sorting strings gmap.

Local Open Scope Z_scope.

(** ** Python values, exceptions and built-ins *)

Module Py.

Inductive exn :=
| KeyError
| IndexError
| ValueError
| ConnectionError
| OverflowError
| FileNotFoundError
| SMTPException.

Inductive result (A : Type) :=
| Ok (a : A)
| Raise (e : exn).
Global Arguments Ok {A} a.
Global Arguments Raise {A} e.

Definition bind {A B} (r : result A) (k : A -> result B) : result B :=
  match r with
  | Ok a => k a
  | Raise e => Raise e
  end.

(** The ten ASCII digits, the only characters [int] reads. *)
Definition isdecimal (c : ascii) : bool :=
  let n := N_of_ascii c in ((48 <=? n) && (n <=? 57))%N.

(** [str.isdigit] on one character.  Below code point 256 the
    characters with the Unicode property Numeric_Type=Digit or Decimal
    are the ten ASCII digits and the superscripts two (178), three
    (179) and one (185). *)
Definition isdigit (c : ascii) : bool :=
  let n := N_of_ascii c in
  (isdecimal c || (n =? 178) || (n =? 179) || (n =? 185))%N.

Fixpoint all_chars (p : ascii -> bool) (s : string) : bool :=
  match s with
  | EmptyString => true
  | String c s' => p c && all_chars p s'
  end.

Definition digit_value (c : ascii) : Z := Z.of_N (N_of_ascii c) - 48.

(** The value of a numeral read left to right, starting from [acc]. *)
Fixpoint decimal_value (acc : Z) (s : string) : Z :=
  match s with
  | EmptyString => acc
  | String c s' => decimal_value (10 * acc + digit_value c) s'
  end.

(** [sys.get_int_max_str_digits()], as the interpreter starts. *)
Definition int_max_str_digits : nat := 4300.

(** [int(s)] for the arguments the scraper passes, which are made of
    [isdigit] characters only (lemma [for_scores_buffer] below): the
    empty string, a string holding a superscript digit and a string of
    more than 4300 characters are rejected with [ValueError]; a shorter
    string of ASCII digits is read in base ten, leading zeros allowed
    and counted. *)
Definition int (s : string) : result Z :=
  match s with
  | EmptyString => Raise ValueError
  | _ => if all_chars isdecimal s
            && (String.length s <=? int_max_str_digits)%nat
         then Ok (decimal_value 0 s)
         else Raise ValueError
  end.

(** [str(n)] for an [int] of at most 4300 digits, as the integers read
    back from the collection are. *)
Definition str_of_int (n : Z) : string :=
  NilZero.string_of_int (Z.to_int n).

(** [lst[i]] for a non-negative index. *)
Definition getitem {A} (lst : list A) (i : nat) : result A :=
  match lst !! i with
  | Some x => Ok x
  | None => Raise IndexError
  end.

(** A list comprehension whose element expression may raise: the
    first exception wins. *)
Fixpoint comprehension {A B} (f : A -> result B) (l : list A)
  : result (list B) :=
  match l with
  | [] => Ok []
  | x :: l' =>
      bind (f x) (fun y =>
      bind (comprehension f l') (fun ys => Ok (y :: ys)))
  end.

End Py.
Import Py.

Notation "'let*' x ':=' r 'in' k" := (Py.bind r (fun x => k))
  (at level 10, x name, r at level 100, k at level 200).

(** ** The parsed page *)

(** An [<a class="storylink">] element: its [href] attribute, if it has
    one, and the text node that follows its opening tag
    ([next_element]). *)
Record anchor := Anchor {
  href : option string;
  a_next_element : string
}.

(** What the scraper asks of [self.soup]: the story links and the text
    nodes that follow each [<span class="score">], both in document
    order. *)
Record markup := Markup {
  find_all_storylink : list anchor;
  find_all_score : list string
}.

(** The dictionary built at lines 44-48. *)
Record article := Article {
  title : string;
  link : string;
  score : Z
}.

(** ** [scrape_article_data] *)

(** [link['href']] *)
Definition get_href (a : anchor) : result string :=
  match href a with
  | Some h => Ok h
  | None => Raise KeyError
  end.

(** The three variables the nested loops update. *)
Record scan := Scan {
  articles : list article;
  temp_num : string;
  index : nat
}.

(** Lines 44-50: the [else] branch.  The dictionary display evaluates
    [titles[index]], [links[index]] and [int(temp_num)] in that order. *)
Definition emit (titles links : list string) (st : scan) : result scan :=
  let* t := getitem titles (index st) in
  let* l := getitem links (index st) in
  let* n := int (temp_num st) in
  Ok (Scan (articles st ++ [Article t l n]) "" (S (index st))).

(** Lines 40-51: [for char in temp_score].  A digit is appended to the
    buffer; the first other character emits a record and leaves the
    loop; running off the end of the text leaves the buffer as it is. *)
Fixpoint scan_score (titles links : list string) (temp_score : string)
  (st : scan) : result scan :=
  match temp_score with
  | EmptyString => Ok st
  | String char rest =>
      if isdigit char then
        scan_score titles links rest
          (Scan (articles st) (temp_num st +:+ String char "") (index st))
      else emit titles links st
  end.

(** Lines 38-51: [for score in self.soup.find_all("span", "score")]. *)
Fixpoint for_scores (titles links : list string) (scores : list string)
  (st : scan) : result scan :=
  match scores with
  | [] => Ok st
  | temp_score :: rest =>
      let* st' := scan_score titles links temp_score st in
      for_scores titles links rest st'
  end.

(** Lines 33-53.  Of [self] the method reads [self.soup] only. *)
Definition scrape_article_data (page : markup) : result (list article) :=
  let* links := comprehension get_href (find_all_storylink page) in
  let titles := map a_next_element (find_all_storylink page) in
  let* st := for_scores titles links (find_all_score page) (Scan [] "" 0) in
  Ok (articles st).

(** ** The MongoDB collection *)

(** An [ObjectId] is a 12-byte value; it is kept as the number its 24
    hexadecimal digits denote. *)
Definition ObjectId := N.

(** A stored document: pymongo adds [_id] to a dictionary that has none
    and the server keeps it as the first field.  The score of a
    document that was stored is an 8-byte integer. *)
Record document := Document {
  doc_id : ObjectId;
  doc_fields : article
}.

(** [db.articles]: its documents in natural (insertion) order, and the
    next identifier the driver hands out. *)
Record collection := Collection {
  documents : list document;
  next_id : ObjectId
}.

Definition count_documents (c : collection) : nat := length (documents c).

Definition delete_many (c : collection) : collection :=
  Collection [] (next_id c).

(** The integers BSON can hold: 8 bytes, signed. *)
Definition int64 (n : Z) : bool := (- 2 ^ 63 <=? n) && (n <? 2 ^ 63).

(** [collection.insert_one(article)]: the driver draws an identifier
    and then encodes the document; the encoder raises [OverflowError]
    on an integer beyond 8 bytes, and nothing is inserted. *)
Definition insert_one (c : collection) (a : article)
  : collection * result unit :=
  if int64 (score a)
  then (Collection (documents c ++ [Document (next_id c) a])
          (N.succ (next_id c)), Ok tt)
  else (Collection (documents c) (N.succ (next_id c)), Raise OverflowError).

(** Lines 79-80: the documents inserted before an exception stay. *)
Fixpoint insert_each (arts : list article) (c : collection)
  : collection * result unit :=
  match arts with
  | [] => (c, Ok tt)
  | a :: rest =>
      let '(c', r) := insert_one c a in
      match r with
      | Ok _ => insert_each rest c'
      | Raise e => (c', Raise e)
      end
  end.

(** Lines 75-82: the collection as the call leaves it, and how the call
    ends; when it returns, the handle it returns is that collection. *)
Definition store_articles_in_database (c : collection)
  (arts : list article) : collection * result unit :=
  let c1 := if decide (0 < count_documents c)%nat then delete_many c else c in
  insert_each arts c1.

(** [cursor.sort("score", -1)]: descending by score, documents of equal
    score in natural order. *)
Fixpoint insert_desc (d : document) (l : list document) : list document :=
  match l with
  | [] => [d]
  | d' :: l' =>
      if score (doc_fields d') <=? score (doc_fields d)
      then d :: d' :: l'
      else d' :: insert_desc d l'
  end.

Definition sort_desc (l : list document) : list document :=
  foldr insert_desc [] l.

(** The values a Python dictionary can hold here. *)
Inductive value :=
| VObjectId (i : ObjectId)
| VStr (s : string)
| VInt (n : Z).

(** [list(article.values())] for a document read back from the
    collection. *)
Definition values (d : document) : list value :=
  [ VObjectId (doc_id d);
    VStr (title (doc_fields d));
    VStr (link (doc_fields d));
    VInt (score (doc_fields d)) ].

(** Line 94. *)
Definition sort_articles_by_score (c : collection) : list (list value) :=
  map values (sort_desc (documents c)).

(** ** The digest file *)

Definition hex_digit (n : N) : ascii :=
  ascii_of_N (if (n <? 10)%N then 48 + n else 87 + n).

Fixpoint hex (width : nat) (n : N) : string :=
  match width with
  | O => ""
  | S w => hex w (n / 16) +:+ String (hex_digit (n mod 16)) ""
  end.

(** What an f-string puts in place of [{v}]. *)
Definition format (v : value) : string :=
  match v with
  | VObjectId i => hex 24 i
  | VStr s => s
  | VInt n => str_of_int n
  end.

Definition nl : string := String (ascii_of_nat 10) "".

(** The argument of [f.write] at line 105. *)
Definition line_105 (art : list value) : result string :=
  let* a1 := getitem art 1 in
  let* a2 := getitem art 2 in
  let* a3 := getitem art 3 in
  Ok ("Title: " +:+ format a1 +:+ " " +:+ nl +:+
      "Link: " +:+ format a2 +:+ " " +:+ nl +:+
      "Points: " +:+ format a3 +:+ " " +:+ nl +:+ nl).

(** Lines 104-105: [written] is what the file holds so far. *)
Fixpoint write_loop (arts : list (list value)) (written : string)
  : string * result unit :=
  match arts with
  | [] => (written, Ok tt)
  | art :: rest =>
      match line_105 art with
      | Ok s => write_loop rest (written +:+ s)
      | Raise e => (written, Raise e)
      end
  end.

Definition files := gmap string string.

(** Lines 103-105: mode ['w'] empties the file first, and leaving the
    [with] block saves what was written even when the loop raised. *)
Definition write_articles_to_file (sorted_articles : list (list value))
  (fs : files) : files * result unit :=
  let '(written, r) := write_loop (take 4 sorted_articles) "" in
  (<["email.txt" := written]> fs, r).

(** ** The rest of the pipeline *)

Inductive http_reply :=
| ConnectionFailed
| Response (status_code : Z) (text : string).

Record mail := Mail {
  sender : string;
  receiver : string;
  body : string
}.

(** Everything the run gets from outside. *)
Record environment := Environment {
  requests_get : string -> http_reply;
  BeautifulSoup : string -> markup;
  getpass : string;
  smtp_session : string -> string -> string -> string -> result unit
}.

Record world := World {
  db : collection;
  fs : files;
  outbox : list mail
}.

Record Scraper := MkScraper {
  url : string;
  page : Z * string;
  soup : markup
}.

Definition hacker_news : string := "https://news.ycombinator.com/".

(** Lines 22-24.  [requests.get] raises when no response arrives and
    returns the response otherwise, whatever its status. *)
Definition __init__ (env : environment) : result Scraper :=
  let url := hacker_news in
  match requests_get env url with
  | ConnectionFailed => Raise ConnectionError
  | Response status_code text =>
      Ok (MkScraper url (status_code, text) (BeautifulSoup env text))
  end.

Definition carriage_return : ascii := ascii_of_nat 13.
Definition line_feed : ascii := ascii_of_nat 10.

(** [f.read()] on a file opened in mode ['r']: a carriage return, alone
    or followed by a line feed, is read as one line feed. *)
Fixpoint universal_newlines (s : string) : string :=
  match s with
  | EmptyString => ""
  | String c rest =>
      if (c =? carriage_return)%char then
        match rest with
        | String c' rest' =>
            if (c' =? line_feed)%char
            then String line_feed (universal_newlines rest')
            else String line_feed (universal_newlines rest)
        | EmptyString => String line_feed ""
        end
      else String c (universal_newlines rest)
  end.

(** Lines 115-128.  [smtp_session env sender password receiver message]
    is how lines 125-128 end: connecting to the mail host, STARTTLS, the
    login and [sendmail] in turn, with the exception of the first of
    them that fails. *)
Definition send_articles_in_email (env : environment) (w : world)
  : world * result unit :=
  let sender_email := "prameshsharma256@gmail.com" in
  let receiver_email := "prameshsharma25@gmail.com" in
  let password := getpass env in
  match fs w !! "email.txt" with
  | None => (w, Raise FileNotFoundError)
  | Some content =>
      let message := universal_newlines content in
      match smtp_session env sender_email password receiver_email message with
      | Ok _ =>
          (World (db w) (fs w)
             (outbox w ++ [Mail sender_email receiver_email message]), Ok tt)
      | Raise e => (w, Raise e)
      end
  end.

(** Lines 134-139. *)
Definition main (env : environment) (w : world) : world * result unit :=
  match __init__ env with
  | Raise e => (w, Raise e)
  | Ok scraper =>
      match scrape_article_data (soup scraper) with
      | Raise e => (w, Raise e)
      | Ok data =>
          let '(current_collection, stored) :=
            store_articles_in_database (db w) data in
          match stored with
          | Raise e => (World current_collection (fs w) (outbox w), Raise e)
          | Ok _ =>
              let sorted_articles :=
                sort_articles_by_score current_collection in
              let '(fs', r) :=
                write_articles_to_file sorted_articles (fs w) in
              let w' := World current_collection fs' (outbox w) in
              match r with
              | Raise e => (w', Raise e)
              | Ok _ => send_articles_in_email env w'
              end
          end
      end
  end.

(** ** The vocabulary of the specification *)

(** The digit characters that precede the first non-digit character of
    a score text, and what follows them. *)
Fixpoint digit_run (text : string) : string :=
  match text with
  | EmptyString => ""
  | String c rest => if isdigit c then String c (digit_run rest) else ""
  end.

Fixpoint after_run (text : string) : string :=
  match text with
  | EmptyString => ""
  | String c rest => if isdigit c then after_run rest else text
  end.

Definition nonempty (s : string) : bool :=
  match s with
  | EmptyString => false
  | _ => true
  end.

(** The integer formed by the leading digit characters. *)
Definition leading_number (text : string) : Z :=
  decimal_value 0 (digit_run text).

(** A score text such as ["123 points"]: at least one and at most 4300
    ASCII digits, and then a character that is not a digit. *)
Definition well_formed_score (text : string) : bool :=
  nonempty (digit_run text)
  && (all_chars isdecimal (digit_run text)
      && (String.length (digit_run text) <=? int_max_str_digits)%nat)
  && nonempty (after_run text).

(** A story link that carries its target. *)
Definition well_formed_link (a : anchor) : bool :=
  match href a with
  | Some _ => true
  | None => false
  end.

(** The record the specification pairs a story link with a score text
    into. *)
Definition paired (a : anchor) (text : string) : article :=
  Article (a_next_element a) (default "" (href a)) (leading_number text).

(** The record format as section 6 of the specification documents it. *)
Definition documented_record (a : article) : string :=
  "Title: " +:+ title a +:+ nl +:+
  "Link: " +:+ link a +:+ nl +:+
  "Points: " +:+ str_of_int (score a) +:+ nl +:+ nl.

(** The same with the blank that line 105 puts before each line
    break. *)
Definition written_record (a : article) : string :=
  "Title: " +:+ title a +:+ " " +:+ nl +:+
  "Link: " +:+ link a +:+ " " +:+ nl +:+
  "Points: " +:+ str_of_int (score a) +:+ " " +:+ nl +:+ nl.

Fixpoint concat_strings (l : list string) : string :=
  match l with
  | [] => ""
  | s :: l' => s +:+ concat_strings l'
  end.

(** The page of the scenario of section 8. *)
Definition scenario_page : markup :=
  Markup [ Anchor (Some "/a") "A"; Anchor (Some "/b") "B"; Anchor (Some "/c") "C" ]
       [ "42 points"; "7 points"; "100 points" ].

(** The pairing invariant of the two loops: the index counts the
    records emitted so far, and the record at position [k] holds the
    title and the link of position [k]. *)
Definition aligned (titles links : list string) (st : scan) : Prop :=
  index st = length (articles st) /\
  forall k art, articles st !! k = Some art ->
    titles !! k = Some (title art) /\ links !! k = Some (link art).

(** What line 34 collects when every story link has a target. *)
Definition targets (anchors : list anchor) : list string :=
  map (fun a => default "" (href a)) anchors.

(** The order of the ranking: the first document's score is not below
    the second's. *)
Definition not_below (d1 d2 : document) : Prop :=
  score (doc_fields d2) <= score (doc_fields d1).

Definition scenario_A : article := Article "A" "/a" 42.
Definition scenario_B : article := Article "B" "/b" 7.
Definition scenario_C : article := Article "C" "/c" 100.

(** What the scenario leaves in [email.txt]. *)
Definition scenario_file : string :=
  "Title: C " +:+ nl +:+ "Link: /c " +:+ nl +:+ "Points: 100 " +:+ nl +:+ nl +:+
  "Title: A " +:+ nl +:+ "Link: /a " +:+ nl +:+ "Points: 42 " +:+ nl +:+ nl +:+
  "Title: B " +:+ nl +:+ "Link: /b " +:+ nl +:+ "Points: 7 " +:+ nl +:+ nl.

(** The same environment, answering the request with [reply]. *)
Definition with_reply (env : environment) (reply : http_reply) : environment :=
  Environment (fun _ => reply) (BeautifulSoup env) (getpass env)
    (smtp_session env).

(** A server that answers 503 with an empty body, a parser that finds
    no element in it, and a mail server that takes the mail. *)
Definition unavailable : environment :=
  Environment (fun _ => Response 503 "") (fun _ => Markup [] []) ""
    (fun _ _ _ _ => Ok tt).

Definition fresh_world : world := World (Collection [] 0%N) ∅ [].

(** ** A reference reading of the two loops *)

(** A score text has a terminator when one of its characters is not a
    digit. *)
Definition has_terminator (text : string) : bool :=
  negb (all_chars isdigit text).

(** The strings that reach [int], one per emission: every score text
    adds its leading digits to the buffer, and a text with a terminator
    closes the buffer. *)
Fixpoint buffers (scores : list string) (buf : string) : list string :=
  match scores with
  | [] => []
  | text :: rest =>
      if has_terminator text
      then (buf +:+ digit_run text) :: buffers rest ""
      else buffers rest (buf +:+ digit_run text)
  end.

(** The record of position [k] for the closed buffer [b]. *)
Definition record_at (titles links : list string) (k : nat) (b : string)
  : result article :=
  let* t := getitem titles k in
  let* l := getitem links k in
  let* n := int b in
  Ok (Article t l n).

(** The records of positions [k], [k+1], ... for the closed buffers
    [bs]; the first exception wins. *)
Fixpoint records_from (titles links : list string) (k : nat)
  (bs : list string) : result (list article) :=
  match bs with
  | [] => Ok []
  | b :: bs' =>
      let* a := record_at titles links k b in
      let* rest := records_from titles links (S k) bs' in
      Ok (a :: rest)
  end.

(** ** The digest as a function of the records *)

(** The ranking of a list of records, identifiers left aside. *)
Definition rank_records (arts : list article) : list article :=
  map doc_fields (sort_desc (map (Document 0%N) arts)).

(** What a run writes to [email.txt] after storing [arts]. *)
Definition digest (arts : list article) : string :=
  concat_strings (map written_record (take 4 (rank_records arts))).

Definition sender_address : string := "prameshsharma256@gmail.com".
Definition receiver_address : string := "prameshsharma25@gmail.com".

(** An environment in which the site answers 200, the parser returns
    [page], and the mail server takes the mail or rejects the login. *)
Definition serving (page : markup) (login : bool) : environment :=
  Environment (fun _ => Response 200 "<html>") (fun _ => page) "secret"
    (fun _ _ _ _ => if login then Ok tt else Raise SMTPException).

(** ** Reading the digest *)




(** ** Reading the file for the mail *)

(** A text without carriage return: [f.read()] returns it as it was
    written. *)
Definition no_carriage_return (s : string) : bool :=
  all_chars (fun c => negb (c =? carriage_return)%char) s.

(** A record whose title and link hold no carriage return. *)
Definition plain_record (a : article) : bool :=
  no_carriage_return (title a) && no_carriage_return (link a).

(** * Properties *)

(** ** Strings *)

Lemma append_cons (c : ascii) (s1 s2 : string) :
  String c s1 +:+ s2 = String c (s1 +:+ s2).
Proof. reflexivity. Qed.

Lemma append_empty_l (s : string) : "" +:+ s = s.
Proof. reflexivity. Qed.

Lemma append_empty_r (s : string) : s +:+ "" = s.
Proof.
  induction s as [|c s' IH]; [reflexivity |].
  now rewrite append_cons, IH.
Qed.

Lemma append_assoc (s1 s2 s3 : string) :
  (s1 +:+ s2) +:+ s3 = s1 +:+ (s2 +:+ s3).
Proof.
  induction s1 as [|c s1' IH]; [reflexivity |].
  now rewrite !append_cons, IH.
Qed.

Lemma all_chars_append (p : ascii -> bool) (s1 s2 : string) :
  all_chars p (s1 +:+ s2) = all_chars p s1 && all_chars p s2.
Proof.
  induction s1 as [|c s1' IH]; [reflexivity |].
  rewrite append_cons. simpl. rewrite IH. apply andb_assoc.
Qed.

Lemma digit_run_isdigit (text : string) :
  all_chars isdigit (digit_run text) = true.
Proof.
  induction text as [|c rest IH]; simpl; [reflexivity |].
  destruct (isdigit c) eqn:Hc; simpl; [| reflexivity].
  rewrite Hc. exact IH.
Qed.

Lemma digit_run_after_run (text : string) :
  digit_run text +:+ after_run text = text.
Proof.
  induction text as [|c rest IH]; simpl; [reflexivity |].
  destruct (isdigit c); [| reflexivity].
  now rewrite append_cons, IH.
Qed.

Lemma all_digits_no_terminator (text : string) :
  all_chars isdigit text = true <-> after_run text = "".
Proof.
  induction text as [|c rest IH]; simpl; [tauto |].
  destruct (isdigit c); simpl; [exact IH |].
  split; discriminate.
Qed.

(** ** One score element *)

(** The inner loop moves the leading digits into the buffer; then it
    either emits (a non-digit follows) or stops (the text is over). *)
Lemma scan_score_run (titles links : list string) (text : string) (st : scan) :
  scan_score titles links text st =
  let st' := Scan (articles st) (temp_num st +:+ digit_run text) (index st) in
  if nonempty (after_run text) then emit titles links st' else Ok st'.
Proof.
  revert st. induction text as [|c rest IH]; intros st; simpl.
  - rewrite append_empty_r. now destruct st.
  - destruct (isdigit c) eqn:Hc; simpl.
    + rewrite IH. simpl. now rewrite append_assoc, append_cons.
    + rewrite append_empty_r. now destruct st.
Qed.

(** A text without terminator emits nothing and keeps the index. *)
Lemma scan_score_no_terminator (titles links : list string) (text : string)
  (st : scan) :
  after_run text = "" ->
  scan_score titles links text st =
  Ok (Scan (articles st) (temp_num st +:+ text) (index st)).
Proof.
  intros H. rewrite scan_score_run. simpl. rewrite H. simpl.
  rewrite <- (digit_run_after_run text) at 2.
  now rewrite H, append_empty_r.
Qed.

Lemma int_decimal (s : string) :
  nonempty s = true ->
  all_chars isdecimal s && (String.length s <=? int_max_str_digits)%nat
  = true ->
  int s = Ok (decimal_value 0 s).
Proof.
  intros Hne Hdec. destruct s as [|c s]; [discriminate |].
  unfold int. now rewrite Hdec.
Qed.

(** With an empty buffer, a well-formed text emits the record of the
    current index. *)
Lemma scan_score_well_formed (titles links : list string) (text : string)
  (arts : list article) (i : nat) (t l : string) :
  well_formed_score text = true ->
  titles !! i = Some t -> links !! i = Some l ->
  scan_score titles links text (Scan arts "" i) =
  Ok (Scan (arts ++ [Article t l (leading_number text)]) "" (S i)).
Proof.
  intros Hwf Ht Hl. unfold well_formed_score in Hwf.
  apply andb_prop in Hwf as [Hwf Hafter].
  apply andb_prop in Hwf as [Hne Hdec].
  rewrite scan_score_run. simpl. rewrite Hafter.
  unfold emit, getitem. simpl. rewrite Ht, Hl. simpl.
  now rewrite append_empty_l, (int_decimal _ Hne Hdec).
Qed.

Lemma scan_score_out_of_range (titles links : list string) (text : string)
  (arts : list article) (i : nat) :
  well_formed_score text = true ->
  titles !! i = None ->
  scan_score titles links text (Scan arts "" i) = Raise IndexError.
Proof.
  intros Hwf Ht. unfold well_formed_score in Hwf.
  apply andb_prop in Hwf as [_ Hafter].
  rewrite scan_score_run. simpl. rewrite Hafter.
  unfold emit, getitem. simpl. now rewrite Ht.
Qed.

(** ** The list of targets *)

Lemma comprehension_get_href (anchors : list anchor) :
  Forall (fun a => well_formed_link a = true) anchors ->
  comprehension get_href anchors = Ok (targets anchors).
Proof.
  induction 1 as [|a anchors Ha _ IH]; simpl; [reflexivity |].
  unfold get_href, well_formed_link in *.
  destruct (href a); [| discriminate]. simpl.
  now rewrite IH.
Qed.

Lemma comprehension_lookup (anchors : list anchor) (links : list string) :
  comprehension get_href anchors = Ok links ->
  forall k l, links !! k = Some l ->
    exists a, anchors !! k = Some a /\ href a = Some l.
Proof.
  revert links. induction anchors as [|a anchors IH]; simpl; intros links H.
  - injection H as <-. intros k l Hk. now rewrite lookup_nil in Hk.
  - unfold get_href in H at 1. destruct (href a) as [h|] eqn:Hh; [| discriminate].
    simpl in H. destruct (comprehension get_href anchors) as [ls|]; [| discriminate].
    simpl in H. injection H as <-. intros [|k] l Hk; simpl in Hk.
    + injection Hk as <-. exists a. now split.
    + destruct (IH ls eq_refl k l Hk) as (a' & Ha' & Hl). now exists a'.
Qed.

(** ** All score elements *)

Lemma emit_aligned (titles links : list string) (st st' : scan) :
  aligned titles links st -> emit titles links st = Ok st' ->
  aligned titles links st'.
Proof.
  intros [Hidx Hall] H. unfold emit, getitem in H.
  destruct (titles !! index st) as [t|] eqn:Ht; [| discriminate].
  destruct (links !! index st) as [l|] eqn:Hl; [| discriminate].
  simpl in H. destruct (int (temp_num st)) as [n|]; [| discriminate].
  simpl in H. injection H as <-. split; simpl.
  - rewrite length_app. simpl. lia.
  - intros k art Hk. apply lookup_app_Some in Hk as [Hk | [Hge Hk]].
    + now apply Hall.
    + apply list_lookup_singleton_Some in Hk as [Hk0 <-]. simpl.
      assert (k = index st) as -> by lia. now split.
Qed.

Lemma scan_score_aligned (titles links : list string) (text : string)
  (st st' : scan) :
  aligned titles links st -> scan_score titles links text st = Ok st' ->
  aligned titles links st'.
Proof.
  intros Hal. rewrite scan_score_run. simpl.
  destruct (nonempty (after_run text)).
  - apply emit_aligned. exact Hal.
  - intros [= <-]. exact Hal.
Qed.

Lemma for_scores_aligned (titles links : list string) (scores : list string)
  (st st' : scan) :
  aligned titles links st -> for_scores titles links scores st = Ok st' ->
  aligned titles links st'.
Proof.
  revert st. induction scores as [|text scores IH]; simpl; intros st Hal H.
  - now injection H as <-.
  - destruct (scan_score titles links text st) as [st1|] eqn:H1; [| discriminate].
    simpl in H. eapply IH; [| exact H].
    eapply scan_score_aligned; eauto.
Qed.

(** The buffer never holds anything but digit characters, so [int] is
    only ever applied to such strings. *)
Lemma scan_score_buffer (titles links : list string) (text : string)
  (st st' : scan) :
  all_chars isdigit (temp_num st) = true ->
  scan_score titles links text st = Ok st' ->
  all_chars isdigit (temp_num st') = true.
Proof.
  intros Hb. rewrite scan_score_run. simpl.
  destruct (nonempty (after_run text)).
  - unfold emit. simpl.
    destruct (getitem titles (index st)); [| discriminate].
    destruct (getitem links (index st)); [| discriminate]. simpl.
    destruct (int _); [| discriminate]. simpl. now intros [= <-].
  - intros [= <-]. simpl.
    now rewrite all_chars_append, Hb, digit_run_isdigit.
Qed.

Lemma for_scores_buffer (titles links : list string) (scores : list string)
  (st st' : scan) :
  all_chars isdigit (temp_num st) = true ->
  for_scores titles links scores st = Ok st' ->
  all_chars isdigit (temp_num st') = true.
Proof.
  revert st. induction scores as [|text scores IH]; simpl; intros st Hb H.
  - now injection H as <-.
  - destruct (scan_score titles links text st) as [st1|] eqn:H1; [| discriminate].
    simpl in H. eapply IH; [| exact H].
    eapply scan_score_buffer; eauto.
Qed.

(** Well-formed score texts against enough story links: one record per
    score text, paired by position. *)
Lemma for_scores_well_formed (anchors : list anchor) (scores : list string) :
  Forall (fun text => well_formed_score text = true) scores ->
  forall (arts : list article) (i : nat),
  (i + length scores <= length anchors)%nat ->
  for_scores (map a_next_element anchors) (targets anchors) scores
    (Scan arts "" i) =
  Ok (Scan (arts ++ zip_with paired (drop i anchors) scores) ""
        (i + length scores)).
Proof.
  induction 1 as [|text scores Hwf _ IH]; intros arts i Hlen; simpl in *.
  - rewrite zip_with_nil_r, app_nil_r. do 2 f_equal. lia.
  - destruct (lookup_lt_is_Some_2 anchors i ltac:(lia)) as [a Ha].
    rewrite (scan_score_well_formed _ _ text arts i
               (a_next_element a) (default "" (href a)) Hwf).
    + simpl. rewrite IH by lia. rewrite (drop_S _ _ _ Ha). simpl.
      rewrite <- app_assoc. simpl. do 2 f_equal. lia.
    + now rewrite list_lookup_fmap, Ha.
    + unfold targets. now rewrite list_lookup_fmap, Ha.
Qed.

(** Well-formed score texts beyond the last story link: the first of
    them raises, and nothing collected so far is returned. *)
Lemma for_scores_too_many (anchors : list anchor) (scores : list string) :
  Forall (fun text => well_formed_score text = true) scores ->
  forall (arts : list article) (i : nat),
  (i <= length anchors < i + length scores)%nat ->
  for_scores (map a_next_element anchors) (targets anchors) scores
    (Scan arts "" i) = Raise IndexError.
Proof.
  induction 1 as [|text scores Hwf _ IH]; intros arts i Hlen; simpl in *.
  - lia.
  - destruct (anchors !! i) as [a|] eqn:Ha.
    + rewrite (scan_score_well_formed _ _ text arts i
                 (a_next_element a) (default "" (href a)) Hwf).
      * simpl. apply IH. apply lookup_lt_Some in Ha. lia.
      * now rewrite list_lookup_fmap, Ha.
      * unfold targets. now rewrite list_lookup_fmap, Ha.
    + rewrite scan_score_out_of_range; [reflexivity | exact Hwf |].
      now rewrite list_lookup_fmap, Ha.
Qed.

(** Score texts made of digits only: no record, whatever the links. *)
Lemma for_scores_digits_only (titles links : list string)
  (scores : list string) :
  Forall (fun text => all_chars isdigit text = true) scores ->
  forall st, exists buffer,
    for_scores titles links scores st =
    Ok (Scan (articles st) buffer (index st)).
Proof.
  induction 1 as [|text scores Hd _ IH]; intros st; simpl.
  - exists (temp_num st). now destruct st.
  - apply all_digits_no_terminator in Hd.
    rewrite (scan_score_no_terminator _ _ _ _ Hd). simpl.
    destruct (IH (Scan (articles st) (temp_num st +:+ text) (index st)))
      as [buffer Hb].
    exists buffer. exact Hb.
Qed.

Lemma scrape_well_formed (page : markup) :
  Forall (fun a => well_formed_link a = true) (find_all_storylink page) ->
  Forall (fun text => well_formed_score text = true) (find_all_score page) ->
  (length (find_all_score page) <= length (find_all_storylink page))%nat ->
  scrape_article_data page =
  Ok (zip_with paired (find_all_storylink page) (find_all_score page)).
Proof.
  intros Hl Hs Hlen. unfold scrape_article_data.
  rewrite (comprehension_get_href _ Hl). simpl.
  now rewrite (for_scores_well_formed _ _ Hs [] 0%nat Hlen).
Qed.

(** ** The extractor *)

(** C1.  On a page whose N story links carry a target and whose N score
    texts are well formed, [scrape_article_data] returns N records; the
    record at position [i] has the title and target of story link [i]
    and the number that starts score text [i]. *)
Theorem scrape_matched_pairs (page : markup) :
  Forall (fun a => well_formed_link a = true) (find_all_storylink page) ->
  Forall (fun text => well_formed_score text = true) (find_all_score page) ->
  length (find_all_storylink page) = length (find_all_score page) ->
  exists arts,
    scrape_article_data page = Ok arts /\
    length arts = length (find_all_score page) /\
    forall i a text,
      find_all_storylink page !! i = Some a ->
      find_all_score page !! i = Some text ->
      exists art,
        arts !! i = Some art /\
        title art = a_next_element a /\
        href a = Some (link art) /\
        score art = leading_number text.
Proof.
  intros Hl Hs Hlen. eexists. split; [| split].
  - apply scrape_well_formed; [exact Hl | exact Hs | lia].
  - rewrite length_zip_with. lia.
  - intros i a text Ha Ht. exists (paired a text). split.
    + rewrite lookup_zip_with, Ha. simpl. now rewrite Ht.
    + unfold paired. simpl. repeat split.
      apply list_elem_of_lookup_2 in Ha.
      rewrite Forall_forall in Hl. specialize (Hl a Ha).
      unfold well_formed_link in Hl. now destruct (href a).
Qed.

Lemma scrape_matched_pairs_witness :
  Forall (fun a => well_formed_link a = true) (find_all_storylink scenario_page) /\
  Forall (fun text => well_formed_score text = true) (find_all_score scenario_page) /\
  exists arts,
    scrape_article_data scenario_page = Ok arts /\
    length arts = length (find_all_score scenario_page) /\
    forall i a text,
      find_all_storylink scenario_page !! i = Some a ->
      find_all_score scenario_page !! i = Some text ->
      exists art,
        arts !! i = Some art /\
        title art = a_next_element a /\
        href a = Some (link art) /\
        score art = leading_number text.
Proof.
  assert (Hl : Forall (fun a => well_formed_link a = true)
                 (find_all_storylink scenario_page))
    by (repeat constructor).
  assert (Hs : Forall (fun text => well_formed_score text = true)
                 (find_all_score scenario_page))
    by (repeat constructor).
  split; [exact Hl | split; [exact Hs |]].
  apply (scrape_matched_pairs scenario_page Hl Hs). reflexivity.
Defined.

(** C2.  The buffer is cleared when a record is emitted but not when a
    score text ends inside its digits: after the text ["12"] the record
    emitted for ["34 points"] carries 1234, although the digits before
    the first non-digit of that text spell 34. *)
Theorem buffer_carries_over :
  let page := Markup [ Anchor (Some "/a") "A"; Anchor (Some "/b") "B" ]
                   [ "12"; "34 points" ] in
  scrape_article_data page = Ok [ Article "A" "/a" 1234 ] /\
  leading_number "34 points" = 34.
Proof. split; reflexivity. Qed.

(** C3, as the claim states it, fails: with one story link and two score
    texts the second emission indexes past the links. *)
Lemma more_scores_than_links_raises :
  let page := Markup [ Anchor (Some "/a") "A" ] [ "1 point"; "2 points" ] in
  length (find_all_storylink page) <> length (find_all_score page) /\
  scrape_article_data page = Raise IndexError.
Proof. split; [discriminate | reflexivity]. Qed.

(** C3, amended.  On a page with well-formed links and score texts:
    when the score texts do not outnumber the story links, one record
    per score text is returned, paired by position, and the story links
    beyond them are left out; when the score texts outnumber the story
    links, [IndexError] is raised. *)
Theorem scrape_mismatched_counts (page : markup) :
  Forall (fun a => well_formed_link a = true) (find_all_storylink page) ->
  Forall (fun text => well_formed_score text = true) (find_all_score page) ->
  ((length (find_all_score page) < length (find_all_storylink page))%nat ->
   scrape_article_data page =
   Ok (zip_with paired
         (take (length (find_all_score page)) (find_all_storylink page))
         (find_all_score page))) /\
  ((length (find_all_storylink page) < length (find_all_score page))%nat ->
   scrape_article_data page = Raise IndexError).
Proof.
  intros Hl Hs. split; intros Hlen.
  - rewrite zip_with_take_l' by lia.
    apply scrape_well_formed; [exact Hl | exact Hs | lia].
  - unfold scrape_article_data.
    rewrite (comprehension_get_href _ Hl). simpl.
    rewrite (for_scores_too_many _ _ Hs [] 0%nat); [reflexivity |].
    simpl. lia.
Qed.

Lemma scrape_mismatched_counts_witness :
  let fewer := Markup [ Anchor (Some "/a") "A"; Anchor (Some "/b") "B" ]
                      [ "5 points" ] in
  let more := Markup [ Anchor (Some "/a") "A" ]
                     [ "5 points"; "6 points" ] in
  (Forall (fun a => well_formed_link a = true) (find_all_storylink fewer) /\
   Forall (fun text => well_formed_score text = true) (find_all_score fewer) /\
   (length (find_all_score fewer) < length (find_all_storylink fewer))%nat /\
   scrape_article_data fewer =
   Ok (zip_with paired
         (take (length (find_all_score fewer)) (find_all_storylink fewer))
         (find_all_score fewer))) /\
  (Forall (fun a => well_formed_link a = true) (find_all_storylink more) /\
   Forall (fun text => well_formed_score text = true) (find_all_score more) /\
   (length (find_all_storylink more) < length (find_all_score more))%nat /\
   scrape_article_data more = Raise IndexError).
Proof.
  intros fewer more.
  assert (Hl : Forall (fun a => well_formed_link a = true)
                 (find_all_storylink fewer))
    by (repeat constructor).
  assert (Hs : Forall (fun text => well_formed_score text = true)
                 (find_all_score fewer))
    by (repeat constructor).
  assert (Hlen : (length (find_all_score fewer)
                  < length (find_all_storylink fewer))%nat)
    by (simpl; lia).
  assert (Hl' : Forall (fun a => well_formed_link a = true)
                  (find_all_storylink more))
    by (repeat constructor).
  assert (Hs' : Forall (fun text => well_formed_score text = true)
                  (find_all_score more))
    by (repeat constructor).
  assert (Hlen' : (length (find_all_storylink more)
                   < length (find_all_score more))%nat)
    by (simpl; lia).
  split.
  - split; [exact Hl | split; [exact Hs | split; [exact Hlen |]]].
    exact (proj1 (scrape_mismatched_counts fewer Hl Hs) Hlen).
  - split; [exact Hl' | split; [exact Hs' | split; [exact Hlen' |]]].
    exact (proj2 (scrape_mismatched_counts more Hl' Hs') Hlen').
Defined.

(** C7, as the claim states it, fails: a score text with no number
    before its first non-digit makes [int("")] raise. *)
Lemma unparseable_score_raises :
  scrape_article_data (Markup [ Anchor (Some "/a") "A" ] [ "points" ])
  = Raise ValueError.
Proof. reflexivity. Qed.

(** C7, amended.  When every story link carries a target and every score
    text is made of digit characters only (in particular when the page
    has no score element, or neither kind of element),
    [scrape_article_data] returns the empty list. *)
Theorem scrape_nothing_to_emit (page : markup) :
  Forall (fun a => well_formed_link a = true) (find_all_storylink page) ->
  Forall (fun text => all_chars isdigit text = true) (find_all_score page) ->
  scrape_article_data page = Ok [].
Proof.
  intros Hl Hs. unfold scrape_article_data.
  rewrite (comprehension_get_href _ Hl). simpl.
  destruct (for_scores_digits_only
              (map a_next_element (find_all_storylink page))
              (targets (find_all_storylink page)) _ Hs (Scan [] "" 0%nat))
    as [buffer ->].
  reflexivity.
Qed.

Lemma scrape_nothing_to_emit_witness :
  let page := Markup [ Anchor (Some "/a") "A" ] [ "12"; "" ] in
  Forall (fun a => well_formed_link a = true) (find_all_storylink page) /\
  Forall (fun text => all_chars isdigit text = true) (find_all_score page) /\
  scrape_article_data page = Ok [].
Proof.
  intros page.
  assert (Hl : Forall (fun a => well_formed_link a = true)
                 (find_all_storylink page))
    by (repeat constructor).
  assert (Hs : Forall (fun text => all_chars isdigit text = true)
                 (find_all_score page))
    by (repeat constructor).
  split; [exact Hl | split; [exact Hs |]].
  exact (scrape_nothing_to_emit page Hl Hs).
Defined.

(** C9.  The pairing index advances only on emission: whenever
    [scrape_article_data] returns, its [k]-th record has the title and
    the target of the [k]-th story link, however many score texts were
    passed over before it. *)
Theorem emitted_record_uses_kth_link (page : markup) (arts : list article) :
  scrape_article_data page = Ok arts ->
  forall k art, arts !! k = Some art ->
    exists a,
      find_all_storylink page !! k = Some a /\
      title art = a_next_element a /\
      href a = Some (link art).
Proof.
  unfold scrape_article_data. intros H k art Hk.
  destruct (comprehension get_href (find_all_storylink page))
    as [links|] eqn:Hlinks; [| discriminate].
  simpl in H.
  destruct (for_scores _ links (find_all_score page) (Scan [] "" 0%nat))
    as [st|] eqn:Hst; [| discriminate].
  simpl in H. injection H as <-.
  assert (Hal : aligned (map a_next_element (find_all_storylink page)) links st).
  { eapply for_scores_aligned; [| exact Hst].
    split; [reflexivity |]. intros k' art' Hk'. simpl in Hk'.
    now rewrite lookup_nil in Hk'. }
  destruct Hal as [_ Hal]. destruct (Hal k art Hk) as [Ht Hl].
  destruct (comprehension_lookup _ _ Hlinks k _ Hl) as (a & Ha & Hh).
  exists a. split; [exact Ha | split; [| exact Hh]].
  rewrite list_lookup_fmap, Ha in Ht. simpl in Ht. now injection Ht.
Qed.

Lemma emitted_record_uses_kth_link_witness :
  let page := Markup [ Anchor (Some "/a") "A"; Anchor (Some "/b") "B" ]
                   [ "1"; "2 points" ] in
  scrape_article_data page = Ok [ Article "A" "/a" 12 ] /\
  exists a,
    find_all_storylink page !! 0%nat = Some a /\
    title (Article "A" "/a" 12) = a_next_element a /\
    href a = Some (link (Article "A" "/a" 12)).
Proof.
  intros page.
  assert (H : scrape_article_data page = Ok [ Article "A" "/a" 12 ])
    by reflexivity.
  split; [exact H |].
  exact (emitted_record_uses_kth_link page _ H 0%nat _ eq_refl).
Defined.

(** ** Store and ranker *)

Lemma insert_each_fits (arts : list article) :
  Forall (fun a => int64 (score a) = true) arts ->
  forall c, exists c',
    insert_each arts c = (c', Ok tt) /\
    map doc_fields (documents c') = map doc_fields (documents c) ++ arts.
Proof.
  induction 1 as [|a arts Ha _ IH]; intros c; simpl.
  - exists c. now rewrite app_nil_r.
  - unfold insert_one. rewrite Ha.
    destruct (IH (Collection (documents c ++ [Document (next_id c) a])
                    (N.succ (next_id c)))) as (c' & Hc' & Hfields).
    exists c'. split; [exact Hc' |].
    rewrite Hfields. simpl. rewrite map_app. simpl.
    now rewrite <- app_assoc.
Qed.

Lemma insert_each_overflow (before : list article) (a : article)
  (after : list article) :
  Forall (fun a => int64 (score a) = true) before ->
  int64 (score a) = false ->
  forall c, exists c',
    insert_each (before ++ a :: after) c = (c', Raise OverflowError) /\
    map doc_fields (documents c') = map doc_fields (documents c) ++ before.
Proof.
  intros Hbefore Ha.
  induction Hbefore as [|b before Hb _ IH]; intros c; simpl.
  - unfold insert_one. rewrite Ha. eexists. split; [reflexivity |].
    simpl. now rewrite app_nil_r.
  - unfold insert_one at 1. rewrite Hb.
    destruct (IH (Collection (documents c ++ [Document (next_id c) b])
                    (N.succ (next_id c)))) as (c' & Hc' & Hfields).
    exists c'. split; [exact Hc' |].
    rewrite Hfields. simpl. rewrite map_app. simpl.
    now rewrite <- app_assoc.
Qed.

Lemma cleared_first (c : collection) :
  documents (if decide (0 < count_documents c)%nat then delete_many c else c)
  = [].
Proof.
  destruct (decide (0 < count_documents c)%nat) as [Hpos | Hzero]; simpl.
  - reflexivity.
  - unfold count_documents in Hzero.
    destruct (documents c); simpl in *; [reflexivity | lia].
Qed.

(** The collection holds the new records and nothing of what it held
    before. *)
Lemma store_articles_fields (c : collection) (arts : list article) :
  Forall (fun a => int64 (score a) = true) arts ->
  exists c',
    store_articles_in_database c arts = (c', Ok tt) /\
    map doc_fields (documents c') = arts.
Proof.
  intros Hfit. unfold store_articles_in_database.
  destruct (insert_each_fits arts Hfit
              (if decide (0 < count_documents c)%nat
               then delete_many c else c)) as (c' & Hc' & Hfields).
  exists c'. split; [exact Hc' |].
  now rewrite Hfields, cleared_first.
Qed.

Lemma store_articles_overflow (c : collection) (before : list article)
  (a : article) (after : list article) :
  Forall (fun a => int64 (score a) = true) before ->
  int64 (score a) = false ->
  exists c',
    store_articles_in_database c (before ++ a :: after)
    = (c', Raise OverflowError) /\
    map doc_fields (documents c') = before.
Proof.
  intros Hfit Ha. unfold store_articles_in_database.
  destruct (insert_each_overflow before a after Hfit Ha
              (if decide (0 < count_documents c)%nat
               then delete_many c else c)) as (c' & Hc' & Hfields).
  exists c'. split; [exact Hc' |].
  now rewrite Hfields, cleared_first.
Qed.

Lemma insert_desc_perm (d : document) (l : list document) :
  insert_desc d l ≡ₚ d :: l.
Proof.
  induction l as [|d' l IH]; simpl; [reflexivity |].
  destruct (score (doc_fields d') <=? score (doc_fields d)); [reflexivity |].
  rewrite IH. apply Permutation_swap.
Qed.

Lemma sort_desc_perm (l : list document) : sort_desc l ≡ₚ l.
Proof.
  induction l as [|d l IH]; simpl; [reflexivity |].
  now rewrite insert_desc_perm, IH.
Qed.

Lemma insert_desc_sorted (d : document) (l : list document) :
  Sorted not_below l -> Sorted not_below (insert_desc d l).
Proof.
  induction 1 as [|d' l Hs IH Hhd]; simpl.
  - repeat constructor.
  - destruct (Z.leb_spec (score (doc_fields d')) (score (doc_fields d)))
      as [Hle | Hgt].
    + repeat constructor; assumption.
    + constructor; [exact IH |].
      destruct Hhd as [|d'' l Hd'']; simpl.
      * constructor. unfold not_below. lia.
      * destruct (score (doc_fields d'') <=? score (doc_fields d));
          constructor; [unfold not_below; lia | exact Hd''].
Qed.

Lemma sort_desc_sorted (l : list document) : Sorted not_below (sort_desc l).
Proof.
  induction l as [|d l IH]; simpl; [constructor |].
  now apply insert_desc_sorted.
Qed.

Lemma Sorted_adjacent {A} (R : relation A) (l : list A) :
  Sorted R l ->
  forall i x y, l !! i = Some x -> l !! S i = Some y -> R x y.
Proof.
  induction 1 as [|x' l Hs IH Hhd]; intros i x y Hx Hy.
  - now rewrite lookup_nil in Hx.
  - destruct i as [|i]; simpl in *.
    + injection Hx as <-. destruct Hhd as [|z l Hz]; simpl in Hy.
      * discriminate.
      * now injection Hy as <-.
    + eapply IH; eassumption.
Qed.

(** Ranking looks at the records only, not at the identifiers. *)
Lemma insert_desc_fields (d d' : document) (l l' : list document) :
  doc_fields d = doc_fields d' ->
  map doc_fields l = map doc_fields l' ->
  map doc_fields (insert_desc d l) = map doc_fields (insert_desc d' l').
Proof.
  intros Hd. revert l'.
  induction l as [|x l IH]; intros [|x' l'] Hl; simpl in *; try discriminate.
  - now rewrite Hd.
  - injection Hl as Hx Hl. rewrite Hx, Hd.
    destruct (score (doc_fields x') <=? score (doc_fields d')); simpl.
    + now rewrite Hd, Hx, Hl.
    + now rewrite Hx, (IH l' Hl).
Qed.

Lemma sort_desc_fields (l l' : list document) :
  map doc_fields l = map doc_fields l' ->
  map doc_fields (sort_desc l) = map doc_fields (sort_desc l').
Proof.
  revert l'. induction l as [|d l IH]; intros [|d' l'] Hl; simpl in *;
    try discriminate; [reflexivity |].
  injection Hl as Hd Hl. apply insert_desc_fields; [exact Hd | now apply IH].
Qed.

(** C5, as the claim states it, fails: a record whose score does not
    fit 8 bytes is not stored; [insert_one] raises [OverflowError]. *)
Lemma big_score_is_not_stored :
  store_articles_in_database (Collection [] 0%N) [ Article "A" "/a" (2 ^ 63) ]
  = (Collection [] 1%N, Raise OverflowError).
Proof. reflexivity. Qed.

(** C5, amended.  Whatever the collection held, storing a list of
    records whose scores fit 8 bytes and ranking the collection returns
    one tuple per stored record, made of an identifier and the title,
    link and score of the record, the records being those stored up to
    order, each tuple's score at least the score of the next. *)
Theorem store_then_rank (c : collection) (arts : list article) :
  Forall (fun a => int64 (score a) = true) arts ->
  exists c' docs,
    store_articles_in_database c arts = (c', Ok tt) /\
    sort_articles_by_score c'
    = map (fun d => [ VObjectId (doc_id d); VStr (title (doc_fields d));
                      VStr (link (doc_fields d));
                      VInt (score (doc_fields d)) ]) docs /\
    map doc_fields docs ≡ₚ arts /\
    forall i d1 d2, docs !! i = Some d1 -> docs !! S i = Some d2 ->
      score (doc_fields d1) >= score (doc_fields d2).
Proof.
  intros Hfit.
  destruct (store_articles_fields c arts Hfit) as (c' & Hstore & Hfields).
  exists c', (sort_desc (documents c')).
  split; [exact Hstore | split; [reflexivity | split]].
  - rewrite sort_desc_perm. now rewrite Hfields.
  - intros i d1 d2 H1 H2. apply Z.le_ge.
    exact (Sorted_adjacent _ _ (sort_desc_sorted _) i d1 d2 H1 H2).
Qed.

Lemma store_then_rank_witness :
  let arts := [ scenario_A; scenario_B; scenario_C ] in
  Forall (fun a => int64 (score a) = true) arts /\
  exists c' docs,
    store_articles_in_database (Collection [ Document 5%N scenario_B ] 6%N) arts
    = (c', Ok tt) /\
    sort_articles_by_score c'
    = map (fun d => [ VObjectId (doc_id d); VStr (title (doc_fields d));
                      VStr (link (doc_fields d));
                      VInt (score (doc_fields d)) ]) docs /\
    map doc_fields docs ≡ₚ arts /\
    forall i d1 d2, docs !! i = Some d1 -> docs !! S i = Some d2 ->
      score (doc_fields d1) >= score (doc_fields d2).
Proof.
  intros arts.
  assert (Hfit : Forall (fun a => int64 (score a) = true) arts)
    by (repeat constructor).
  split; [exact Hfit |].
  exact (store_then_rank (Collection [ Document 5%N scenario_B ] 6%N) arts Hfit).
Defined.

(** ** Reporter *)

Lemma line_105_values (d : document) :
  line_105 (values d) = Ok (written_record (doc_fields d)).
Proof. reflexivity. Qed.

Lemma write_loop_values (docs : list document) (written : string) :
  write_loop (map values docs) written =
  (written +:+ concat_strings (map written_record (map doc_fields docs)),
   Ok tt).
Proof.
  revert written. induction docs as [|d docs IH]; intros written.
  - simpl. now rewrite append_empty_r.
  - change (write_loop (map values (d :: docs)) written)
      with (match line_105 (values d) with
            | Ok s => write_loop (map values docs) (written +:+ s)
            | Raise e => (written, Raise e)
            end).
    rewrite line_105_values, IH. simpl. now rewrite append_assoc.
Qed.

Lemma write_articles_values (docs : list document) (fs : files) :
  write_articles_to_file (map values docs) fs =
  (<["email.txt" :=
       concat_strings (map written_record (map doc_fields (take 4 docs)))]> fs,
   Ok tt).
Proof.
  unfold write_articles_to_file.
  change (take 4 (map values docs)) with (take 4 (values <$> docs)).
  rewrite <- fmap_take.
  change (values <$> take 4 docs) with (map values (take 4 docs)).
  now rewrite write_loop_values.
Qed.



(** C10.  Every tuple [sort_articles_by_score] returns is the
    identifier, title, link and score of a stored document, in that
    order; [write_articles_to_file] renders positions 1 to 3, so the
    file is made of the titles, links and scores of the four best
    documents, and two collections that differ in their identifiers
    only yield the same file. *)
Theorem tuples_and_rendered_positions (c : collection) :
  (forall row, row ∈ sort_articles_by_score c ->
     exists d, d ∈ documents c /\
       row = [ VObjectId (doc_id d); VStr (title (doc_fields d));
               VStr (link (doc_fields d)); VInt (score (doc_fields d)) ]) /\
  (forall fs,
     write_articles_to_file (sort_articles_by_score c) fs =
     (<["email.txt" :=
          concat_strings
            (map written_record
               (take 4 (map doc_fields (sort_desc (documents c)))))]> fs,
      Ok tt)) /\
  (forall c' fs,
     map doc_fields (documents c') = map doc_fields (documents c) ->
     write_articles_to_file (sort_articles_by_score c') fs =
     write_articles_to_file (sort_articles_by_score c) fs).
Proof.
  assert (Hfile : forall c0 fs,
    write_articles_to_file (sort_articles_by_score c0) fs =
    (<["email.txt" :=
         concat_strings
           (map written_record
              (take 4 (map doc_fields (sort_desc (documents c0)))))]> fs,
     Ok tt)).
  { intros c0 fs. unfold sort_articles_by_score.
    rewrite write_articles_values. do 3 f_equal.
    change (map doc_fields (take 4 (sort_desc (documents c0))))
      with (doc_fields <$> take 4 (sort_desc (documents c0))).
    now rewrite fmap_take. }
  split; [| split].
  - intros row Hrow. unfold sort_articles_by_score in Hrow.
    apply (list_elem_of_fmap_1 values) in Hrow as (d & -> & Hd).
    exists d. split; [| reflexivity].
    now rewrite <- (sort_desc_perm (documents c)).
  - apply Hfile.
  - intros c' fs Heq. rewrite !Hfile.
    now rewrite (sort_desc_fields _ _ Heq).
Qed.

(** ** The scenario of section 8 *)

(** C8, as the claim states it, fails in its last part: the file of the
    scenario is not the three records in the documented format. *)
Lemma scenario_file_differs_from_documented_format :
  (write_articles_to_file
     (sort_articles_by_score
        (store_articles_in_database (db fresh_world)
           [ scenario_A; scenario_B; scenario_C ]).1)
     ∅).1 !! "email.txt"
  <> Some (concat_strings
             (map documented_record [ scenario_C; scenario_A; scenario_B ])).
Proof. vm_compute. discriminate. Qed.

(** C8, amended.  The page of the scenario yields the records A, B, C
    in that order; storing and ranking them yields C, A, B, each behind
    its identifier; and the file then holds these three, in that order,
    each as [Title: <t> \nLink: <l> \nPoints: <s> \n\n] with a blank
    before each line break. *)
Theorem scenario_end_to_end (c : collection) (fs : files) :
  scrape_article_data scenario_page
  = Ok [ scenario_A; scenario_B; scenario_C ] /\
  let stored :=
    store_articles_in_database c [ scenario_A; scenario_B; scenario_C ] in
  stored.2 = Ok tt /\
  let ranked := sort_articles_by_score stored.1 in
  (exists ia ib ic,
     ranked = [ [ VObjectId ic; VStr "C"; VStr "/c"; VInt 100 ];
                [ VObjectId ia; VStr "A"; VStr "/a"; VInt 42 ];
                [ VObjectId ib; VStr "B"; VStr "/b"; VInt 7 ] ]) /\
  write_articles_to_file ranked fs
  = (<["email.txt" := scenario_file]> fs, Ok tt).
Proof.
  split; [reflexivity |]. cbv zeta.
  assert (Hstored :
    store_articles_in_database c [ scenario_A; scenario_B; scenario_C ]
    = (Collection
         [ Document (next_id c) scenario_A;
           Document (N.succ (next_id c)) scenario_B;
           Document (N.succ (N.succ (next_id c))) scenario_C ]
         (N.succ (N.succ (N.succ (next_id c)))), Ok tt)).
  { unfold store_articles_in_database.
    destruct (decide (0 < count_documents c)%nat) as [Hpos | Hzero].
    - reflexivity.
    - unfold count_documents in Hzero.
      destruct c as [[|d docs] next]; simpl in *; [reflexivity | lia]. }
  rewrite Hstored. split; [reflexivity | split].
  - now exists (next_id c), (N.succ (next_id c)), (N.succ (N.succ (next_id c))).
  - reflexivity.
Qed.

(** ** The fetch stage *)

(** C4, as the claim states it, fails: a 503 response is not an error;
    the run goes on, empties the collection and sends the empty
    digest. *)
Lemma non_success_status_is_not_fatal :
  __init__ unavailable
  = Ok (MkScraper hacker_news (503, "") (Markup [] [])) /\
  main unavailable fresh_world
  = (World (Collection [] 0%N) (<["email.txt" := ""]> ∅)
       [ Mail "prameshsharma256@gmail.com" "prameshsharma25@gmail.com" "" ],
     Ok tt).
Proof. split; reflexivity. Qed.

(** C4, amended.  When no response arrives, [ConnectionError] ends the
    run before anything is stored, written or sent.  When a response
    arrives, its status is not looked at: the run is the one a 200
    response with the same body gives. *)
Theorem fetch_stage (env : environment) (w : world) :
  (requests_get env hacker_news = ConnectionFailed ->
   main env w = (w, Raise ConnectionError)) /\
  (forall status_code text,
     requests_get env hacker_news = Response status_code text ->
     main env w = main (with_reply env (Response 200 text)) w).
Proof.
  split.
  - intros H. unfold main, __init__. now rewrite H.
  - intros status_code text H. unfold main, __init__. simpl.
    now rewrite H.
Qed.

Lemma fetch_stage_witness :
  requests_get unavailable hacker_news = Response 503 "" /\
  main unavailable fresh_world
  = main (with_reply unavailable (Response 200 "")) fresh_world.
Proof.
  split; [reflexivity |].
  exact (proj2 (fetch_stage unavailable fresh_world) 503 "" eq_refl).
Defined.

(** * Further properties of the code *)

(** ** The extractor as a comprehension over closed buffers *)

Lemma has_terminator_after_run (text : string) :
  nonempty (after_run text) = has_terminator text.
Proof.
  unfold has_terminator.
  induction text as [|c rest IH]; simpl; [reflexivity |].
  destruct (isdigit c); simpl; [exact IH | reflexivity].
Qed.

Lemma emit_record_at (titles links : list string) (st : scan) :
  emit titles links st =
  let* a := record_at titles links (index st) (temp_num st) in
  Ok (Scan (articles st ++ [a]) "" (S (index st))).
Proof.
  unfold emit, record_at.
  destruct (getitem titles (index st)); [| reflexivity]. simpl.
  destruct (getitem links (index st)); [| reflexivity]. simpl.
  destruct (int (temp_num st)); reflexivity.
Qed.

Lemma for_scores_records (titles links : list string) (scores : list string) :
  forall st,
  (let* st' := for_scores titles links scores st in Ok (articles st')) =
  (let* new := records_from titles links (index st)
                 (buffers scores (temp_num st)) in
   Ok (articles st ++ new)).
Proof.
  induction scores as [|text scores IH]; intros st; simpl.
  - now rewrite app_nil_r.
  - rewrite scan_score_run. simpl.
    rewrite has_terminator_after_run.
    destruct (has_terminator text); simpl.
    + rewrite emit_record_at. simpl.
      destruct (record_at titles links (index st)
                  (temp_num st +:+ digit_run text)) as [a|e]; [| reflexivity].
      simpl. rewrite IH. simpl.
      destruct (records_from titles links (S (index st)) (buffers scores ""))
        as [new|e]; [| reflexivity].
      simpl. now rewrite <- app_assoc.
    + now rewrite IH.
Qed.

Lemma scrape_records (page : markup) (links : list string) :
  comprehension get_href (find_all_storylink page) = Ok links ->
  scrape_article_data page =
  records_from (map a_next_element (find_all_storylink page)) links 0
    (buffers (find_all_score page) "").
Proof.
  intros Hl. unfold scrape_article_data. rewrite Hl. simpl.
  pose proof (for_scores_records
                (map a_next_element (find_all_storylink page)) links
                (find_all_score page) (Scan [] "" 0%nat)) as H.
  simpl in H. rewrite H.
  now destruct (records_from _ links 0 (buffers (find_all_score page) "")).
Qed.

Lemma scrape_no_links (page : markup) (e : exn) :
  comprehension get_href (find_all_storylink page) = Raise e ->
  scrape_article_data page = Raise e.
Proof. intros Hl. unfold scrape_article_data. now rewrite Hl. Qed.

(** X1.  The two nested loops compute a comprehension: every score text
    adds its leading digits to one running buffer, a text with a
    non-digit closes the buffer, and the [k]-th closed buffer is read by
    [int] and paired with the [k]-th title and link. *)
Theorem scrape_as_comprehension (page : markup) :
  scrape_article_data page =
  let* links := comprehension get_href (find_all_storylink page) in
  records_from (map a_next_element (find_all_storylink page)) links 0
    (buffers (find_all_score page) "").
Proof.
  unfold scrape_article_data.
  destruct (comprehension get_href (find_all_storylink page)) as [links|e];
    [| reflexivity].
  simpl.
  pose proof (for_scores_records
                (map a_next_element (find_all_storylink page)) links
                (find_all_score page) (Scan [] "" 0%nat)) as H.
  simpl in H. rewrite H.
  now destruct (records_from _ links 0 (buffers (find_all_score page) "")).
Qed.

Lemma comprehension_get_href_length (anchors : list anchor)
  (links : list string) :
  comprehension get_href anchors = Ok links ->
  length links = length anchors.
Proof.
  revert links. induction anchors as [|a anchors IH]; simpl; intros links H.
  - now injection H as <-.
  - destruct (get_href a); [| discriminate]. simpl in H.
    destruct (comprehension get_href anchors) as [ls|]; [| discriminate].
    simpl in H. injection H as <-. simpl. now rewrite (IH ls).
Qed.

Lemma comprehension_get_href_missing (anchors : list anchor) :
  Exists (fun a => href a = None) anchors ->
  comprehension get_href anchors = Raise KeyError.
Proof.
  induction 1 as [a anchors Ha | a anchors _ IH]; simpl.
  - unfold get_href. now rewrite Ha.
  - rewrite IH. unfold get_href. now destruct (href a).
Qed.

Lemma isdecimal_digit_value (c : ascii) :
  isdecimal c = true -> 0 <= digit_value c <= 9.
Proof.
  unfold isdecimal, digit_value. intros H.
  apply andb_prop in H as [H1 H2].
  apply N.leb_le in H1, H2. lia.
Qed.

Lemma decimal_value_nonneg (s : string) (acc : Z) :
  all_chars isdecimal s = true -> 0 <= acc -> 0 <= decimal_value acc s.
Proof.
  revert acc. induction s as [|c s' IH]; simpl; intros acc Hs Hacc.
  - exact Hacc.
  - apply andb_prop in Hs as [Hc Hs].
    apply IH; [exact Hs |].
    pose proof (isdecimal_digit_value c Hc). lia.
Qed.

Lemma int_nonneg (s : string) (n : Z) : int s = Ok n -> 0 <= n.
Proof.
  unfold int. destruct s as [|c s']; [discriminate |].
  destruct (all_chars isdecimal (String c s')) eqn:Hs; [| discriminate].
  destruct (String.length (String c s') <=? int_max_str_digits)%nat;
    [| discriminate].
  intros [= <-]. apply (decimal_value_nonneg (String c s') 0 Hs). lia.
Qed.

Lemma int_rejects (s : string) :
  nonempty s
  && (all_chars isdecimal s && (String.length s <=? int_max_str_digits)%nat)
  = false ->
  int s = Raise ValueError.
Proof.
  unfold int. destruct s as [|c s']; [reflexivity |].
  change (nonempty (String c s')) with true. rewrite andb_true_l.
  now intros ->.
Qed.

Lemma records_from_ok (titles links : list string) (bs : list string) :
  forall k new,
  records_from titles links k bs = Ok new ->
  length new = length bs /\
  (length bs <= length titles - k)%nat /\
  Forall (fun a => 0 <= score a) new.
Proof.
  induction bs as [|b bs IH]; simpl; intros k new H.
  - injection H as <-. repeat split; [lia | constructor].
  - unfold record_at, getitem in H.
    destruct (titles !! k) as [t|] eqn:Ht; [| discriminate].
    destruct (links !! k) as [l|]; [| discriminate]. simpl in H.
    destruct (int b) as [n|] eqn:Hn; [| discriminate]. simpl in H.
    destruct (records_from titles links (S k) bs) as [rest|] eqn:Hrest;
      [| discriminate].
    simpl in H. injection H as <-.
    destruct (IH (S k) rest Hrest) as (Hlen & Hk & Hpos).
    apply lookup_lt_Some in Ht. simpl. repeat split; [lia | lia |].
    constructor; [| exact Hpos]. simpl. now apply (int_nonneg b).
Qed.

Lemma buffers_length (scores : list string) (buf : string) :
  length (buffers scores buf) = length (List.filter has_terminator scores).
Proof.
  revert buf. induction scores as [|text scores IH]; intros buf; simpl;
    [reflexivity |].
  destruct (has_terminator text); simpl; now rewrite IH.
Qed.

Lemma buffers_agree (scores scores' : list string) (buf : string) :
  Forall2 (fun text text' =>
             digit_run text = digit_run text' /\
             has_terminator text = has_terminator text') scores scores' ->
  buffers scores buf = buffers scores' buf.
Proof.
  intros H. revert buf.
  induction H as [|text text' scores scores' [Hrun Hterm] _ IH]; intros buf;
    simpl; [reflexivity |].
  rewrite Hrun, Hterm. destruct (has_terminator text'); now rewrite IH.
Qed.

(** X2.  A story link without [href] makes line 34 raise [KeyError]
    before any score element is looked at, whatever the scores are. *)
Theorem missing_href_raises (page : markup) :
  Exists (fun a => href a = None) (find_all_storylink page) ->
  scrape_article_data page = Raise KeyError.
Proof.
  intros H. unfold scrape_article_data.
  now rewrite (comprehension_get_href_missing _ H).
Qed.

Lemma missing_href_raises_witness :
  let page := Markup [ Anchor (Some "/a") "A"; Anchor None "B" ]
                     [ "5 points" ] in
  Exists (fun a => href a = None) (find_all_storylink page) /\
  scrape_article_data page = Raise KeyError.
Proof.
  intros page.
  assert (H : Exists (fun a => href a = None) (find_all_storylink page))
    by (apply Exists_cons_tl, Exists_cons_hd; reflexivity).
  split; [exact H | exact (missing_href_raises page H)].
Defined.

(** X3.  Exactly one record is returned for each score text that holds
    a non-digit character, none for the others, and never more records
    than there are story links. *)
Theorem one_record_per_terminated_score (page : markup)
  (arts : list article) :
  scrape_article_data page = Ok arts ->
  length arts = length (List.filter has_terminator (find_all_score page)) /\
  (length arts <= length (find_all_storylink page))%nat.
Proof.
  destruct (comprehension get_href (find_all_storylink page))
    as [links|e] eqn:Hl;
    [rewrite (scrape_records _ _ Hl) | now rewrite (scrape_no_links _ _ Hl)].
  intros H. apply records_from_ok in H as (Hlen & Hk & _).
  rewrite length_map in Hk. rewrite Hlen, buffers_length in *. lia.
Qed.

Lemma one_record_per_terminated_score_witness :
  let page := Markup [ Anchor (Some "/a") "A"; Anchor (Some "/b") "B";
                       Anchor (Some "/c") "C" ]
                     [ "1"; "2 points"; ""; "3 points" ] in
  let arts := [ Article "A" "/a" 12; Article "B" "/b" 3 ] in
  scrape_article_data page = Ok arts /\
  length arts = length (List.filter has_terminator (find_all_score page)) /\
  (length arts <= length (find_all_storylink page))%nat.
Proof.
  intros page arts.
  assert (H : scrape_article_data page = Ok arts) by reflexivity.
  split; [exact H | exact (one_record_per_terminated_score page arts H)].
Defined.

(** X4.  Every score that [scrape_article_data] returns is a
    non-negative integer. *)
Theorem scraped_scores_are_non_negative (page : markup)
  (arts : list article) :
  scrape_article_data page = Ok arts ->
  Forall (fun a => 0 <= score a) arts.
Proof.
  destruct (comprehension get_href (find_all_storylink page))
    as [links|e] eqn:Hl;
    [rewrite (scrape_records _ _ Hl) | now rewrite (scrape_no_links _ _ Hl)].
  intros H. now apply records_from_ok in H as (_ & _ & Hpos).
Qed.

Lemma scraped_scores_are_non_negative_witness :
  scrape_article_data scenario_page
  = Ok [ scenario_A; scenario_B; scenario_C ] /\
  Forall (fun a => 0 <= score a) [ scenario_A; scenario_B; scenario_C ].
Proof.
  assert (H : scrape_article_data scenario_page
              = Ok [ scenario_A; scenario_B; scenario_C ]) by reflexivity.
  split; [exact H | exact (scraped_scores_are_non_negative _ _ H)].
Defined.

(** X5.  Of a score text only the leading digits and the presence of a
    non-digit matter: two pages with the same story links whose score
    texts agree on both, position by position, give the same result. *)
Theorem text_after_first_non_digit_is_ignored (anchors : list anchor)
  (scores scores' : list string) :
  Forall2 (fun text text' =>
             digit_run text = digit_run text' /\
             has_terminator text = has_terminator text') scores scores' ->
  scrape_article_data (Markup anchors scores) =
  scrape_article_data (Markup anchors scores').
Proof.
  intros H.
  destruct (comprehension get_href anchors) as [links|e] eqn:Hl.
  - rewrite (scrape_records (Markup anchors scores) links Hl),
      (scrape_records (Markup anchors scores') links Hl). simpl.
    now rewrite (buffers_agree _ _ "" H).
  - now rewrite (scrape_no_links (Markup anchors scores) e Hl),
      (scrape_no_links (Markup anchors scores') e Hl).
Qed.

Lemma text_after_first_non_digit_is_ignored_witness :
  let anchors := [ Anchor (Some "/a") "A" ] in
  Forall2 (fun text text' =>
             digit_run text = digit_run text' /\
             has_terminator text = has_terminator text')
    [ "42 points" ] [ "42x9" ] /\
  scrape_article_data (Markup anchors [ "42 points" ]) =
  scrape_article_data (Markup anchors [ "42x9" ]).
Proof.
  intros anchors.
  assert (H : Forall2 (fun text text' =>
                digit_run text = digit_run text' /\
                has_terminator text = has_terminator text')
                [ "42 points" ] [ "42x9" ])
    by (repeat constructor).
  split; [exact H |].
  exact (text_after_first_non_digit_is_ignored anchors _ _ H).
Defined.

(** X6.  When the first score text has a non-digit but its leading
    digits are missing, are more than 4300, or include a superscript
    digit (which [str.isdigit] accepts and [int] does not), and the
    page has a story link, the run ends in [ValueError]. *)
Theorem unreadable_first_score_raises (page : markup) (text : string)
  (rest : list string) :
  Forall (fun a => well_formed_link a = true) (find_all_storylink page) ->
  find_all_storylink page <> [] ->
  find_all_score page = text :: rest ->
  has_terminator text = true ->
  well_formed_score text = false ->
  scrape_article_data page = Raise ValueError.
Proof.
  intros Hl Hne Hs Hterm Hwf.
  rewrite (scrape_records _ _ (comprehension_get_href _ Hl)), Hs. simpl.
  rewrite Hterm. simpl. unfold record_at, getitem, targets.
  destruct (find_all_storylink page) as [|a anchors]; [congruence |].
  simpl. rewrite int_rejects; [reflexivity |].
  unfold well_formed_score in Hwf.
  rewrite has_terminator_after_run, Hterm, andb_true_r in Hwf.
  exact Hwf.
Qed.

Lemma unreadable_first_score_raises_witness :
  let text := String "4" (String (ascii_of_nat 178) " points") in
  let page := Markup [ Anchor (Some "/a") "A" ] [ text ] in
  Forall (fun a => well_formed_link a = true) (find_all_storylink page) /\
  has_terminator text = true /\
  well_formed_score text = false /\
  scrape_article_data page = Raise ValueError.
Proof.
  intros text page.
  assert (Hl : Forall (fun a => well_formed_link a = true)
                 (find_all_storylink page))
    by (repeat constructor).
  split; [exact Hl | split; [reflexivity | split; [reflexivity |]]].
  apply (unreadable_first_score_raises page text [] Hl);
    [discriminate | reflexivity | reflexivity | reflexivity].
Defined.

(** ** Store and ranker, continued *)

(** X7.  [store_articles_in_database] replaces the contents of the
    collection.  When every score fits 8 bytes, the collection holds
    afterwards the given records, in the given order, and nothing else.
    Otherwise the first score that does not fit ends the call in
    [OverflowError], and the collection holds the records given before
    it and nothing else. *)
Theorem store_replaces_contents (c : collection) (arts : list article) :
  (Forall (fun a => int64 (score a) = true) arts ->
   exists c',
     store_articles_in_database c arts = (c', Ok tt) /\
     map doc_fields (documents c') = arts /\
     count_documents c' = length arts) /\
  (forall before a after,
     arts = before ++ a :: after ->
     Forall (fun a => int64 (score a) = true) before ->
     int64 (score a) = false ->
     exists c',
       store_articles_in_database c arts = (c', Raise OverflowError) /\
       map doc_fields (documents c') = before).
Proof.
  split.
  - intros Hfit.
    destruct (store_articles_fields c arts Hfit) as (c' & Hstore & Hfields).
    exists c'. split; [exact Hstore | split; [exact Hfields |]].
    unfold count_documents. rewrite <- (length_map doc_fields).
    now rewrite Hfields.
  - intros before a after -> Hfit Ha.
    exact (store_articles_overflow c before a after Hfit Ha).
Qed.

Lemma store_replaces_contents_witness :
  let c := Collection [ Document 5%N scenario_B ] 6%N in
  let big := Article "D" "/d" (2 ^ 63) in
  (Forall (fun a => int64 (score a) = true) [ scenario_A; scenario_C ] /\
   exists c',
     store_articles_in_database c [ scenario_A; scenario_C ] = (c', Ok tt) /\
     map doc_fields (documents c') = [ scenario_A; scenario_C ] /\
     count_documents c' = length [ scenario_A; scenario_C ]) /\
  (int64 (score big) = false /\
   exists c',
     store_articles_in_database c ([ scenario_A ] ++ big :: [ scenario_C ])
     = (c', Raise OverflowError) /\
     map doc_fields (documents c') = [ scenario_A ]).
Proof.
  intros c big.
  assert (Hfit : Forall (fun a => int64 (score a) = true)
                   [ scenario_A; scenario_C ])
    by (repeat constructor).
  assert (Hbefore : Forall (fun a => int64 (score a) = true) [ scenario_A ])
    by (repeat constructor).
  assert (Hbig : int64 (score big) = false) by reflexivity.
  split.
  - split; [exact Hfit |].
    exact (proj1 (store_replaces_contents c [ scenario_A; scenario_C ]) Hfit).
  - split; [exact Hbig |].
    exact (proj2 (store_replaces_contents c
                    ([ scenario_A ] ++ big :: [ scenario_C ]))
             [ scenario_A ] big [ scenario_C ] eq_refl Hbefore Hbig).
Defined.

Lemma not_below_transitive : Transitive not_below.
Proof. intros d1 d2 d3. unfold not_below. lia. Qed.

Lemma sort_desc_length (l : list document) :
  length (sort_desc l) = length l.
Proof. apply Permutation_length, sort_desc_perm. Qed.

(** X8.  The digest is made of the best stories: what
    [write_articles_to_file] leaves in [email.txt] for the ranking of a
    collection are the records of four of its documents (of all of
    them when it holds fewer), and no document left out has a higher
    score than a document written. *)
Theorem digest_holds_the_best (c : collection) (fs : files) :
  exists written left_out,
    written ++ left_out ≡ₚ documents c /\
    length written = Nat.min 4 (count_documents c) /\
    write_articles_to_file (sort_articles_by_score c) fs =
    (<["email.txt" :=
         concat_strings (map written_record (map doc_fields written))]> fs,
     Ok tt) /\
    forall d1 d2, d1 ∈ written -> d2 ∈ left_out ->
      score (doc_fields d2) <= score (doc_fields d1).
Proof.
  exists (take 4 (sort_desc (documents c))),
         (drop 4 (sort_desc (documents c))).
  split; [| split; [| split]].
  - rewrite take_drop. apply sort_desc_perm.
  - rewrite length_take, sort_desc_length. reflexivity.
  - unfold sort_articles_by_score. apply write_articles_values.
  - intros d1 d2 H1 H2.
    pose proof (sort_desc_sorted (documents c)) as Hs.
    apply (@Sorted_StronglySorted _ _ not_below_transitive) in Hs.
    rewrite <- (take_drop 4 (sort_desc (documents c))) in Hs.
    exact (StronglySorted_app_1_elem_of _ _ _ d1 d2 Hs H1 H2).
Qed.

(** ** Reporter, continued *)





(** ** The whole run *)

Lemma rank_records_fields (docs : list document) :
  map doc_fields (sort_desc docs) = rank_records (map doc_fields docs).
Proof.
  unfold rank_records. apply sort_desc_fields.
  rewrite map_map. simpl. now rewrite map_id.
Qed.

Lemma write_ranked (c : collection) (fs : files) :
  write_articles_to_file (sort_articles_by_score c) fs =
  (<["email.txt" := digest (map doc_fields (documents c))]> fs, Ok tt).
Proof.
  unfold sort_articles_by_score, digest.
  rewrite write_articles_values. do 3 f_equal.
  rewrite <- rank_records_fields.
  change (map doc_fields (take 4 (sort_desc (documents c))))
    with (doc_fields <$> take 4 (sort_desc (documents c))).
  now rewrite fmap_take.
Qed.

Lemma send_with_file (env : environment) (c : collection) (fs : files)
  (out : list mail) (content : string) :
  fs !! "email.txt" = Some content ->
  send_articles_in_email env (World c fs out) =
  match smtp_session env sender_address (getpass env) receiver_address
          (universal_newlines content) with
  | Ok _ =>
      (World c fs
         (out ++ [Mail sender_address receiver_address
                    (universal_newlines content)]), Ok tt)
  | Raise e => (World c fs out, Raise e)
  end.
Proof. intros H. unfold send_articles_in_email. simpl. now rewrite H. Qed.

(** After a successful extraction of records that fit the store, the
    run stores, ranks, writes and then mails; only the mail stage can
    still fail. *)
Lemma main_runs (env : environment) (w : world) (status_code : Z)
  (text : string) (arts : list article) :
  requests_get env hacker_news = Response status_code text ->
  scrape_article_data (BeautifulSoup env text) = Ok arts ->
  Forall (fun a => int64 (score a) = true) arts ->
  exists c',
    map doc_fields (documents c') = arts /\
    main env w =
    let fs' := <["email.txt" := digest arts]> (fs w) in
    match smtp_session env sender_address (getpass env) receiver_address
            (universal_newlines (digest arts)) with
    | Ok _ =>
        (World c' fs'
           (outbox w ++ [Mail sender_address receiver_address
                           (universal_newlines (digest arts))]), Ok tt)
    | Raise e => (World c' fs' (outbox w), Raise e)
    end.
Proof.
  intros Hget Hscrape Hfit.
  destruct (store_articles_fields (db w) arts Hfit)
    as (c' & Hstore & Hfields).
  exists c'. split; [exact Hfields |].
  unfold main, __init__. rewrite Hget. simpl.
  rewrite Hscrape, Hstore, write_ranked, Hfields.
  apply send_with_file. apply lookup_insert_eq.
Qed.

Lemma universal_newlines_plain (s : string) :
  no_carriage_return s = true -> universal_newlines s = s.
Proof.
  unfold no_carriage_return.
  induction s as [|c s' IH]; simpl; [reflexivity |].
  intros H. apply andb_prop in H as [Hc Hs].
  apply negb_true_iff in Hc. rewrite Hc. now rewrite (IH Hs).
Qed.

Lemma no_carriage_return_uint (d : Decimal.uint) :
  no_carriage_return (NilEmpty.string_of_uint d) = true.
Proof. induction d; simpl; auto. Qed.

Lemma no_carriage_return_uint_zero (d : Decimal.uint) :
  no_carriage_return (NilZero.string_of_uint d) = true.
Proof.
  destruct d; solve [reflexivity | apply (no_carriage_return_uint (_ d))].
Qed.

Lemma no_carriage_return_str_of_int (n : Z) :
  no_carriage_return (str_of_int n) = true.
Proof.
  unfold str_of_int, NilZero.string_of_int.
  destruct (Z.to_int n) as [d|d].
  - apply no_carriage_return_uint_zero.
  - change (no_carriage_return (String "-" (NilZero.string_of_uint d)))
      with (no_carriage_return (NilZero.string_of_uint d)).
    apply no_carriage_return_uint_zero.
Qed.

Lemma no_carriage_return_record (a : article) :
  plain_record a = true -> no_carriage_return (written_record a) = true.
Proof.
  unfold plain_record, written_record, no_carriage_return. intros H.
  apply andb_prop in H as [Ht Hl].
  rewrite !all_chars_append. fold (no_carriage_return (str_of_int (score a))).
  rewrite Ht, Hl, no_carriage_return_str_of_int. reflexivity.
Qed.

Lemma no_carriage_return_records (rs : list article) :
  Forall (fun a => plain_record a = true) rs ->
  no_carriage_return (concat_strings (map written_record rs)) = true.
Proof.
  induction 1 as [|a rs Ha _ IH]; simpl; [reflexivity |].
  unfold no_carriage_return in *. rewrite all_chars_append, IH.
  fold (no_carriage_return (written_record a)).
  now rewrite no_carriage_return_record.
Qed.

Lemma rank_records_perm (arts : list article) : rank_records arts ≡ₚ arts.
Proof.
  unfold rank_records. rewrite sort_desc_perm, map_map. simpl.
  now rewrite map_id.
Qed.

(** Without carriage return in a title or a link, the mail stage reads
    the digest as it was written. *)
Lemma digest_read_verbatim (arts : list article) :
  Forall (fun a => plain_record a = true) arts ->
  universal_newlines (digest arts) = digest arts.
Proof.
  intros H. apply universal_newlines_plain. unfold digest.
  apply no_carriage_return_records, Forall_take.
  now rewrite rank_records_perm.
Qed.

(** X10.  When the page is fetched, the extraction succeeds with scores
    that fit 8 bytes and the mail session goes through, one mail is
    sent from the fixed sender to the fixed receiver and the run ends
    normally.  [email.txt] then holds the four best of the extracted
    records, whatever the collection held before and whatever the
    identifiers; the body of the mail is that text with every carriage
    return, alone or before a line feed, read as a line feed, so it is
    that text itself when no title and no link holds a carriage return;
    the collection holds the extracted records. *)
Theorem mail_body_is_the_digest (env : environment) (w : world)
  (status_code : Z) (text : string) (arts : list article) :
  requests_get env hacker_news = Response status_code text ->
  scrape_article_data (BeautifulSoup env text) = Ok arts ->
  Forall (fun a => int64 (score a) = true) arts ->
  smtp_session env sender_address (getpass env) receiver_address
    (universal_newlines (digest arts)) = Ok tt ->
  exists c' body,
    main env w =
    (World c' (<["email.txt" := digest arts]> (fs w))
       (outbox w ++ [Mail sender_address receiver_address body]),
     Ok tt) /\
    map doc_fields (documents c') = arts /\
    body = universal_newlines (digest arts) /\
    (Forall (fun a => plain_record a = true) arts -> body = digest arts).
Proof.
  intros Hget Hscrape Hfit Hsession.
  destruct (main_runs env w _ _ _ Hget Hscrape Hfit) as (c' & Hfields & Hmain).
  exists c', (universal_newlines (digest arts)).
  split; [| split; [exact Hfields | split; [reflexivity |]]].
  - rewrite Hmain. simpl. now rewrite Hsession.
  - apply digest_read_verbatim.
Qed.

Lemma mail_body_is_the_digest_witness :
  let env := serving scenario_page true in
  let arts := [ scenario_A; scenario_B; scenario_C ] in
  requests_get env hacker_news = Response 200 "<html>" /\
  scrape_article_data (BeautifulSoup env "<html>") = Ok arts /\
  Forall (fun a => int64 (score a) = true) arts /\
  exists c' body,
    main env fresh_world =
    (World c' (<["email.txt" := digest arts]> (fs fresh_world))
       (outbox fresh_world ++ [Mail sender_address receiver_address body]),
     Ok tt) /\
    map doc_fields (documents c') = arts /\
    body = universal_newlines (digest arts) /\
    (Forall (fun a => plain_record a = true) arts -> body = digest arts).
Proof.
  intros env arts.
  assert (Hfit : Forall (fun a => int64 (score a) = true) arts)
    by (repeat constructor).
  split; [reflexivity | split; [reflexivity | split; [exact Hfit |]]].
  exact (mail_body_is_the_digest env fresh_world 200 "<html>" arts
           eq_refl eq_refl Hfit eq_refl).
Defined.



(** X12.  When the extraction raises, its exception ends the run, and
    the collection, the files and the outbox are as they were. *)
Theorem failed_extraction_changes_nothing (env : environment) (w : world)
  (status_code : Z) (text : string) (e : exn) :
  requests_get env hacker_news = Response status_code text ->
  scrape_article_data (BeautifulSoup env text) = Raise e ->
  main env w = (w, Raise e).
Proof.
  intros Hget Hscrape.
  unfold main, __init__. rewrite Hget. simpl. now rewrite Hscrape.
Qed.

Lemma failed_extraction_changes_nothing_witness :
  let env := serving (Markup [ Anchor (Some "/a") "A" ] [ "points" ]) true in
  let w := World (Collection [ Document 7%N scenario_A ] 8%N)
                 (<["email.txt" := "old"]> ∅) [] in
  requests_get env hacker_news = Response 200 "<html>" /\
  scrape_article_data (BeautifulSoup env "<html>") = Raise ValueError /\
  main env w = (w, Raise ValueError).
Proof.
  intros env w. split; [reflexivity | split; [reflexivity |]].
  exact (failed_extraction_changes_nothing env w 200 "<html>"
           ValueError eq_refl eq_refl).
Defined.

(** X18.  When the extraction succeeds but one of its scores does not
    fit 8 bytes, the run ends in [OverflowError] at the store: the
    collection holds the records extracted before that one and nothing
    else, and neither [email.txt] nor the outbox is touched. *)
Theorem oversized_score_stops_the_run (env : environment) (w : world)
  (status_code : Z) (text : string) (before : list article) (a : article)
  (after : list article) :
  requests_get env hacker_news = Response status_code text ->
  scrape_article_data (BeautifulSoup env text) = Ok (before ++ a :: after) ->
  Forall (fun a => int64 (score a) = true) before ->
  int64 (score a) = false ->
  exists c',
    main env w = (World c' (fs w) (outbox w), Raise OverflowError) /\
    map doc_fields (documents c') = before.
Proof.
  intros Hget Hscrape Hfit Ha.
  destruct (store_articles_overflow (db w) before a after Hfit Ha)
    as (c' & Hstore & Hfields).
  exists c'. split; [| exact Hfields].
  unfold main, __init__. rewrite Hget. simpl.
  now rewrite Hscrape, Hstore.
Qed.

Lemma oversized_score_stops_the_run_witness :
  let page := Markup [ Anchor (Some "/a") "A"; Anchor (Some "/b") "B" ]
                     [ "5 points"; "9223372036854775808 points" ] in
  let env := serving page true in
  let w := World (Collection [ Document 7%N scenario_C ] 8%N)
                 (<["email.txt" := "old"]> ∅) [] in
  requests_get env hacker_news = Response 200 "<html>" /\
  scrape_article_data (BeautifulSoup env "<html>")
  = Ok ([ Article "A" "/a" 5 ] ++ Article "B" "/b" (2 ^ 63) :: []) /\
  int64 (score (Article "B" "/b" (2 ^ 63))) = false /\
  exists c',
    main env w = (World c' (fs w) (outbox w), Raise OverflowError) /\
    map doc_fields (documents c') = [ Article "A" "/a" 5 ].
Proof.
  intros page env w.
  assert (Hfit : Forall (fun a => int64 (score a) = true)
                   [ Article "A" "/a" 5 ])
    by (repeat constructor).
  split; [reflexivity | split; [reflexivity | split; [reflexivity |]]].
  exact (oversized_score_stops_the_run env w 200 "<html>"
           [ Article "A" "/a" 5 ] (Article "B" "/b" (2 ^ 63)) []
           eq_refl eq_refl Hfit eq_refl).
Defined.

(** The collection is replaced, not extended, by each run. *)
Lemma main_db_fields (env : environment) (w : world) (status_code : Z)
  (text : string) (arts : list article) :
  requests_get env hacker_news = Response status_code text ->
  scrape_article_data (BeautifulSoup env text) = Ok arts ->
  Forall (fun a => int64 (score a) = true) arts ->
  map doc_fields (documents (db (main env w).1)) = arts /\
  fs (main env w).1 = <["email.txt" := digest arts]> (fs w).
Proof.
  intros Hget Hscrape Hfit.
  destruct (main_runs env w _ _ _ Hget Hscrape Hfit) as (c' & Hfields & Hmain).
  rewrite Hmain. simpl.
  destruct (smtp_session env sender_address (getpass env) receiver_address
              (universal_newlines (digest arts))); simpl;
    (split; [exact Hfields | reflexivity]).
Qed.

(** X14.  Runs do not accumulate: when the site serves the same page
    again and the scores fit 8 bytes, the second run leaves the
    collection with the extracted records once, not twice, and the file
    as the first run left it, whether or not the mails went out. *)
Theorem second_run_replaces_first (env : environment) (w : world)
  (status_code : Z) (text : string) (arts : list article) :
  requests_get env hacker_news = Response status_code text ->
  scrape_article_data (BeautifulSoup env text) = Ok arts ->
  Forall (fun a => int64 (score a) = true) arts ->
  let w1 := (main env w).1 in
  let w2 := (main env w1).1 in
  map doc_fields (documents (db w2)) = arts /\
  count_documents (db w2) = length arts /\
  fs w2 = fs w1.
Proof.
  intros Hget Hscrape Hfit w1 w2.
  destruct (main_db_fields env w _ _ _ Hget Hscrape Hfit) as [_ Hfs1].
  destruct (main_db_fields env w1 _ _ _ Hget Hscrape Hfit) as [Hdb2 Hfs2].
  fold w1 in Hfs1. fold w2 in Hdb2, Hfs2.
  split; [exact Hdb2 | split].
  - unfold count_documents. rewrite <- (length_map doc_fields).
    now rewrite Hdb2.
  - rewrite Hfs2, Hfs1. apply insert_insert_eq.
Qed.

Lemma second_run_replaces_first_witness :
  let env := serving scenario_page true in
  let arts := [ scenario_A; scenario_B; scenario_C ] in
  let w1 := (main env fresh_world).1 in
  let w2 := (main env w1).1 in
  requests_get env hacker_news = Response 200 "<html>" /\
  scrape_article_data (BeautifulSoup env "<html>") = Ok arts /\
  Forall (fun a => int64 (score a) = true) arts /\
  map doc_fields (documents (db w2)) = arts /\
  count_documents (db w2) = length arts /\
  fs w2 = fs w1.
Proof.
  intros env arts w1 w2.
  assert (Hfit : Forall (fun a => int64 (score a) = true) arts)
    by (repeat constructor).
  split; [reflexivity | split; [reflexivity | split; [exact Hfit |]]].
  exact (second_run_replaces_first env fresh_world 200 "<html>" arts
           eq_refl eq_refl Hfit).
Defined.

Lemma buffers_digits_only (scores : list string) (buf : string) :
  Forall (fun text => all_chars isdigit text = true) scores ->
  buffers scores buf = [].
Proof.
  intros H. revert buf.
  induction H as [|text scores Hd _ IH]; intros buf; simpl; [reflexivity |].
  unfold has_terminator. rewrite Hd. simpl. apply IH.
Qed.

(** X15.  A page without any score text that holds a non-digit still
    runs to the end: the collection is emptied, [email.txt] is emptied,
    and, when the mail session goes through, a mail with an empty body
    is sent. *)
Theorem empty_page_sends_empty_digest (env : environment) (w : world)
  (status_code : Z) (text : string) :
  requests_get env hacker_news = Response status_code text ->
  Forall (fun a => well_formed_link a = true)
    (find_all_storylink (BeautifulSoup env text)) ->
  Forall (fun t => all_chars isdigit t = true)
    (find_all_score (BeautifulSoup env text)) ->
  smtp_session env sender_address (getpass env) receiver_address "" = Ok tt ->
  main env w =
  (World (Collection [] (next_id (db w))) (<["email.txt" := ""]> (fs w))
     (outbox w ++ [Mail sender_address receiver_address ""]),
   Ok tt).
Proof.
  intros Hget Hl Hs Hsession.
  assert (Hscrape : scrape_article_data (BeautifulSoup env text) = Ok []).
  { rewrite (scrape_records _ _ (comprehension_get_href _ Hl)).
    now rewrite (buffers_digits_only _ _ Hs). }
  assert (Hsend : forall c,
    send_articles_in_email env
      (World c (<["email.txt" := ""]> (fs w)) (outbox w)) =
    (World c (<["email.txt" := ""]> (fs w))
       (outbox w ++ [Mail sender_address receiver_address ""]), Ok tt)).
  { intros c.
    rewrite (send_with_file env c _ _ "" (lookup_insert_eq _ _ _)).
    change (universal_newlines "") with "". now rewrite Hsession. }
  unfold main, __init__. rewrite Hget. simpl. rewrite Hscrape.
  unfold store_articles_in_database, count_documents.
  destruct (db w) as [[|d docs] next]; simpl; apply Hsend.
Qed.

Lemma empty_page_sends_empty_digest_witness :
  let env := serving (Markup [ Anchor (Some "/a") "A" ] [ "12" ]) true in
  let w := World (Collection [ Document 7%N scenario_A ] 8%N)
                 (<["email.txt" := "old"]> ∅) [] in
  requests_get env hacker_news = Response 200 "<html>" /\
  main env w =
  (World (Collection [] 8%N) (<["email.txt" := ""]> (fs w))
     [Mail sender_address receiver_address ""],
   Ok tt).
Proof.
  intros env w. split; [reflexivity |].
  apply (empty_page_sends_empty_digest env w 200 "<html>" eq_refl);
    [repeat constructor | repeat constructor | reflexivity].
Defined.

(** ** The file determines the records *)
















